(** * The video-game router of [routes/games.js]

    A shallow embedding of the five handlers that [routes/games.js] registers
    on its Express router, together with the parts of the three packages the
    handlers call into: [nanoid] for the identifier, the lodash chain that
    lowdb hands out for the collection, and the Express response object.

    Conventions.
    - A JSON object is a finite map from property names to JSON values; the
      order in which properties are serialised is not modelled.
    - The collection ["games"] is a list of records, in array order.
    - A handler is a computation over the in-memory database, the response
      being built, and the exceptions the store is going to raise. *)

From stdpp Require Import gmap strings list fin_maps pretty.
From Stdlib Require Import ZArith Ascii String.

Local Set Warnings "-register-all".
Local Open Scope Z_scope.
Local Open Scope string_scope.
Local Open Scope list_scope.

(** ** JSON values *)

Inductive json :=
  | JNull
  | JBool (b : bool)
  | JNum (n : Z)
  | JStr (s : string)
  | JArr (items : list json)
  | JObj (fields : gmap string json).

(** A record of the collection, a request body, a thrown error: all are JSON
    objects. *)
Abbreviation obj := (gmap string json).

(** ** nanoid *)

(** [const idLength = 8;] *)
Definition idLength : nat := 8.

Module Nanoid.

(** The 64 symbols nanoid draws from. *)
Definition urlAlphabet : string :=
  "useandom-26T198340PX75pxJACKVERYMINDBUSHWOLF_GQZbfghjklqvwyzrict".

(** [urlAlphabet[byte & 63]] *)
Definition symbol (byte : Z) : ascii :=
  nth (Z.to_nat (Z.land byte 63)) (list_ascii_of_string urlAlphabet) "-"%char.

(** The loop of [nanoid(size)]: one symbol per random byte, reading the
    pool of random bytes from position [i] on. *)
Fixpoint symbols (pool : nat → Z) (i size : nat) : string :=
  match size with
  | O => EmptyString
  | S size' => String (symbol (pool i)) (symbols pool (S i) size')
  end.

Definition nanoid (size : nat) (pool : nat → Z) : string :=
  symbols pool 0 size.

End Nanoid.

(** ** lodash: the collection methods the chain is built from *)

Module Lodash.

(** [_.matches({ id })]: the record has an own property [id] that is
    strictly equal to the string looked for. *)
Definition matches (id : string) (o : obj) : bool :=
  match o !! "id" with
  | Some (JStr s) => String.eqb s id
  | _ => false
  end.

(** [_.find(games, { id })]: the first matching record, with its position
    in the array: the record found is the array's own element, not a
    copy. *)
Definition find (id : string) (games : list obj) : option (nat * obj) :=
  list_find (λ o, Is_true (matches id o)) games.

(** [_.assign(target, source)]: every property of [source] is written onto
    [target]. The object spread [{ ...target, ...source }] copies the same
    way. *)
Definition assign (target source : obj) : obj := source ∪ target.

(** [_.find(games, { id })] followed by [.assign(body)]: the element found
    is updated in place; when nothing is found lodash assigns onto a fresh
    empty object and the array is not touched. *)
Definition find_assign (id : string) (body : obj) (games : list obj)
  : list obj :=
  match find id games with
  | Some (i, o) => <[i := assign o body]> games
  | None => games
  end.

(** [_.remove(games, { id })]: every matching element is taken out of the
    array, the others keep their order. *)
Definition remove (id : string) (games : list obj) : list obj :=
  filter (λ o, ¬ Is_true (matches id o)) games.

(** [games.push(game)] *)
Definition push (game : obj) (games : list obj) : list obj :=
  games ++ [game].

End Lodash.

(** ** Handlers as computations *)

(** What the client receives as the body. *)
Inductive payload :=
  | Text (s : string)   (* a string, sent as it is *)
  | Json (v : json).    (* the JSON serialisation of [v] *)

(** The Express response object: the status code, the body written so far,
    and whether the response has gone out. *)
Record response := Response {
  statusCode : Z;
  body : option payload;
  headersSent : bool
}.

(** A response nothing has been done to: status 200 until a handler says
    otherwise. *)
Definition fresh : response :=
  {| statusCode := 200; body := None; headersSent := false |}.

(** The state a handler runs in.
    - [db]: the in-memory array [db.get("games")] reads and mutates;
    - [res]: the response;
    - [faults]: what the store does on its next accesses, [faults 0] for the
      next one: [None] when it goes through, [Some e] when it throws [e].
      Each access consumes one entry. *)
Record state := State {
  db : list obj;
  res : response;
  faults : nat → option json
}.

Definition set_db (games : list obj) (s : state) : state :=
  {| db := games; res := res s; faults := faults s |}.

Definition set_res (r : response) (s : state) : state :=
  {| db := db s; res := r; faults := faults s |}.

(** One store access has happened. *)
Definition tick (s : state) : state :=
  {| db := db s; res := res s; faults := λ n, faults s (S n) |}.

(** A JavaScript statement either completes with a value or throws. *)
Inductive outcome (A : Type) :=
  | Ret (a : A)
  | Throw (error : json).
Arguments Ret {A} a.
Arguments Throw {A} error.

Definition M (A : Type) : Type := state → outcome A * state.

#[global] Instance M_ret : MRet M := λ A a s, (Ret a, s).

#[global] Instance M_bind : MBind M := λ A B f m s,
  match m s with
  | (Ret a, s') => f a s'
  | (Throw e, s') => (Throw e, s')
  end.

(** [try { m } catch (error) { handler }] *)
Definition try_catch {A} (m : M A) (handler : json → M A) : M A := λ s,
  match m s with
  | (Throw e, s') => handler e s'
  | r => r
  end.

(** ** lowdb: chains over the collection *)

Module Lowdb.

(** The two read chains of the router: [db.get("games")] and
    [db.get("games").find({ id })]. A chain is a lodash wrapper: nothing
    is computed until it is asked for its value. *)
Inductive chain :=
  | Games
  | Find (id : string).

(** What a chain evaluates to on a given array; [None] is JavaScript's
    [undefined]. *)
Definition resolve (q : chain) (games : list obj) : option json :=
  match q with
  | Games => Some (JArr (JObj <$> games))
  | Find id => JObj ∘ snd <$> Lodash.find id games
  end.

(** [chain.value()], which is also the wrapper's [toJSON]. *)
Definition value (q : chain) : M (option json) := λ s,
  match faults s 0 with
  | Some e => (Throw e, tick s)
  | None => (Ret (resolve q (db s)), tick s)
  end.

(** [chain.write()] for a chain that ends in the mutation [f]: the array
    is mutated in memory, then the adapter writes the file, which is
    where the store can throw. *)
Definition write (f : list obj → list obj) : M unit := λ s,
  let s' := tick (set_db (f (db s)) s) in
  match faults s 0 with
  | Some e => (Throw e, s')
  | None => (Ret tt, s')
  end.

End Lowdb.

(** ** Express: the response methods *)

Module Express.

(** What a handler passes to [res.send]. *)
Inductive chunk :=
  | Undefined
  | Null
  | Num (n : Z)
  | Str (s : string)
  | Object (v : json)
  | Wrapper (q : Lowdb.chain).

(** A JSON value as the argument of [res.send], by its JavaScript type:
    [null], a number and a string are told apart from the objects
    (booleans, arrays and plain objects go the same way as these). *)
Definition thrown (e : json) : chunk :=
  match e with
  | JNull => Null
  | JNum n => Num n
  | JStr s => Str s
  | JBool _ | JArr _ | JObj _ => Object e
  end.

(** The error Node raises when a header is set on a response that has
    gone out. *)
Definition ERR_HTTP_HEADERS_SENT : json :=
  JObj {[ "code" := JStr "ERR_HTTP_HEADERS_SENT" ]}.

(** The error Node raises when the head of a response is written with a
    status code outside 100..999. *)
Definition ERR_HTTP_INVALID_STATUS_CODE : json :=
  JObj {[ "code" := JStr "ERR_HTTP_INVALID_STATUS_CODE" ]}.

Definition valid_status (code : Z) : bool :=
  ((100 <=? code) && (code <=? 999))%Z.

(** The statuses [res.send] empties the body for. *)
Definition no_content (code : Z) : bool :=
  ((code =? 204) || (code =? 304) || (code =? 205))%Z.

(** The end of [res.send]: the body goes out. With no body no header is
    set, and ending a response a second time does nothing; with a body,
    [Content-Length] is set first, which throws once the response has
    gone out. On a response that has not gone out, the body is emptied for
    the statuses that carry none, and writing the head throws when the
    status code is not a valid one. *)
Definition finish (b : option payload) : M unit := λ s,
  let r := res s in
  if headersSent r then
    match b with
    | None => (Ret tt, s)
    | Some _ => (Throw ERR_HTTP_HEADERS_SENT, s)
    end
  else if valid_status (statusCode r) then
    (Ret tt,
     set_res {| statusCode := statusCode r;
                body := if no_content (statusCode r) then Some (Text "") else b;
                headersSent := true |} s)
  else (Throw ERR_HTTP_INVALID_STATUS_CODE, s).

(** [res.status(code)] *)
Definition status (code : Z) : M unit := λ s,
  let r := res s in
  if headersSent r then (Ret tt, s)
  else
    (Ret tt,
     set_res {| statusCode := code; body := body r; headersSent := false |} s).

(** The message table of the [statuses] package. *)
Definition messages : gmap Z string :=
  list_to_map
    [(100, "Continue"); (101, "Switching Protocols"); (102, "Processing");
     (103, "Early Hints");
     (200, "OK"); (201, "Created"); (202, "Accepted");
     (203, "Non-Authoritative Information"); (204, "No Content");
     (205, "Reset Content"); (206, "Partial Content"); (207, "Multi-Status");
     (208, "Already Reported"); (226, "IM Used");
     (300, "Multiple Choices"); (301, "Moved Permanently"); (302, "Found");
     (303, "See Other"); (304, "Not Modified"); (305, "Use Proxy");
     (307, "Temporary Redirect"); (308, "Permanent Redirect");
     (400, "Bad Request"); (401, "Unauthorized"); (402, "Payment Required");
     (403, "Forbidden"); (404, "Not Found"); (405, "Method Not Allowed");
     (406, "Not Acceptable"); (407, "Proxy Authentication Required");
     (408, "Request Timeout"); (409, "Conflict"); (410, "Gone");
     (411, "Length Required"); (412, "Precondition Failed");
     (413, "Payload Too Large"); (414, "URI Too Long");
     (415, "Unsupported Media Type"); (416, "Range Not Satisfiable");
     (417, "Expectation Failed"); (418, "I'm a Teapot");
     (421, "Misdirected Request"); (422, "Unprocessable Entity");
     (423, "Locked"); (424, "Failed Dependency"); (425, "Too Early");
     (426, "Upgrade Required"); (428, "Precondition Required");
     (429, "Too Many Requests"); (431, "Request Header Fields Too Large");
     (451, "Unavailable For Legal Reasons");
     (500, "Internal Server Error"); (501, "Not Implemented");
     (502, "Bad Gateway"); (503, "Service Unavailable");
     (504, "Gateway Timeout"); (505, "HTTP Version Not Supported");
     (506, "Variant Also Negotiates"); (507, "Insufficient Storage");
     (508, "Loop Detected"); (509, "Bandwidth Limit Exceeded");
     (510, "Not Extended"); (511, "Network Authentication Required")].
#[global] Arguments messages : simpl never.

(** [res.json(obj)]: [JSON.stringify] first, which asks a lodash wrapper
    for its value through [toJSON]; a value of [undefined] serialises to
    no body at all. *)
Definition json_ (c : chunk) : M unit :=
  match c with
  | Wrapper q => v ← Lowdb.value q; finish (Json <$> v)
  | Object v => finish (Some (Json v))
  | Str s => finish (Some (Json (JStr s)))
  | Num n => finish (Some (Json (JNum n)))
  | Null => finish (Some (Json JNull))
  | Undefined => finish None
  end.

(** [res.send(body)]: a string goes out as text and [null] as the empty
    string, objects go through [res.json]. A number is taken for a status:
    it becomes the status code and its registered message, when it has
    one, the text body. *)
Definition send (c : chunk) : M unit :=
  match c with
  | Undefined => finish None
  | Null => finish (Some (Text ""))
  | Num n => status n ;; finish (Text <$> messages !! n)
  | Str s => finish (Some (Text s))
  | Object _ | Wrapper _ => json_ c
  end.

(** [res.sendStatus(code)]: the status is set and its registered message
    is sent as the text body, the code in decimal when it has none. *)
Definition sendStatus (code : Z) : M unit :=
  status code ;;
  send (Str (default (pretty code) (messages !! code))).

End Express.

(** ** The router *)

Module router.
Import Lodash Lowdb Express.

(** [router.get("/", ...)] *)
Definition get : M unit :=
  let games := Wrapper Games in
  send games.

(** [router.get("/:id", ...)] *)
Definition get_id (id : string) : M unit :=
  game ← value (Find id);
  (if game is None then sendStatus 404 else mret tt) ;;
  send (from_option Object Undefined game).

(** [router.post("/", ...)]; [pool] is the random bytes [nanoid] draws
    for this call. *)
Definition post (body : obj) (pool : nat → Z) : M unit :=
  try_catch
    (let game := assign {[ "id" := JStr (Nanoid.nanoid idLength pool) ]} body in
     write (push game) ;;
     send (Object (JObj game)))
    (λ error, status 500 ;; send (thrown error)).

(** [router.put("/:id", ...)] *)
Definition put (id : string) (body : obj) : M unit :=
  try_catch
    (write (find_assign id body) ;;
     send (Wrapper (Find id)))
    (λ error, status 500 ;; send (thrown error)).

(** [router.delete("/:id", ...)] *)
Definition delete (id : string) : M unit :=
  write (remove id) ;;
  sendStatus 200.

End router.

(** A request is served on the current array, with a response of its own;
    [fl] is what the store is going to do during the request. *)
Definition serve (handler : M unit) (games : list obj) (fl : nat → option json)
  : outcome unit * state :=
  handler {| db := games; res := fresh; faults := fl |}.

(** The store raises nothing. *)
Definition sound : nat → option json := λ _, None.

(** The response a client has received in full. *)
Definition sent (code : Z) (b : option payload) : response :=
  {| statusCode := code; body := b; headersSent := true |}.

(** ** The operations as the specification words them *)

(** "removes first record matching id": the first match is dropped, later
    ones stay. *)
Fixpoint spec_delete_first (id : string) (games : list obj) : list obj :=
  match games with
  | [] => []
  | o :: rest =>
      if Lodash.matches id o then rest else o :: spec_delete_first id rest
  end.

(** "every record whose [id] does not equal the path id". *)
Definition other (id : string) (o : obj) : Prop :=
  o !! "id" ≠ Some (JStr id).

#[global] Instance other_dec id o : Decision (other id o).
Proof.
  unfold other.
  destruct (o !! "id") as [[| | |s| |]|]; try (left; congruence).
  destruct (decide (s = id)) as [->|Hne]; [right; tauto | left; congruence].
Defined.

(** ** Sample data *)

Definition batman : obj :=
  {[ "title" := JStr "Batman" ]} ∪ {[ "genre" := JStr "Adventure" ]}.

Definition stored (id : string) (o : obj) : obj :=
  <[ "id" := JStr id ]> o.

(** Two records under one id, as two creates with the body's own [id] leave
    them. *)
Definition twins : list obj := [stored "a" batman; stored "a" ∅].

Definition zeros : nat → Z := λ _, 0.

Definition EACCES : json := JObj {[ "code" := JStr "EACCES" ]}.

(** ** Requests in sequence *)

(** [req.app.db] is the application's one database: the next request is
    served on the array the previous one left, whether that one answered or
    threw, by a store that goes on from where it was, and with a response of
    its own. *)
Definition then_serve (handler : M unit) (before : outcome unit * state)
  : outcome unit * state :=
  serve handler (db before.2) (faults before.2).

(** [{ id: nanoid(idLength), ...req.body }]: the record [router.post]
    builds from a body. *)
Definition created (body : obj) (pool : nat → Z) : obj :=
  Lodash.assign {[ "id" := JStr (Nanoid.nanoid idLength pool) ]} body.

(** The store raises nothing from now on. *)
Definition calm (fl : nat → option json) : Prop := ∀ n, fl n = None.

(** The [id] properties of the collection, in array order; [None] for a
    record that has none. *)
Definition ids (games : list obj) : list (option json) :=
  (λ o : obj, o !! "id") <$> games.

(** The record's [id] is a JSON string: only then can a path id equal it. *)
Definition addressable (o : obj) : Prop :=
  ∃ s, o !! "id" = Some (JStr s).

(** A record whose [id] is a number, as a create with the body
    [{"id": 5}] stores it. *)
Definition numbered : obj := {[ "id" := JNum 5 ]}.

(** * Properties *)

(** ** The packages *)

Lemma symbols_length pool size : ∀ i,
  String.length (Nanoid.symbols pool i size) = size.
Proof.
  induction size as [|size IH]; intros i; simpl; [done|].
  by rewrite IH.
Qed.

Lemma nanoid_length size pool : String.length (Nanoid.nanoid size pool) = size.
Proof. apply symbols_length. Qed.

Lemma matches_true id (o : obj) :
  Lodash.matches id o = true ↔ o !! "id" = Some (JStr id).
Proof.
  unfold Lodash.matches.
  destruct (o !! "id") as [[| | |s| |]|] eqn:E; try (split; [done|congruence]).
  rewrite String.eqb_eq. split; congruence.
Qed.

Lemma matches_spec id (o : obj) :
  Is_true (Lodash.matches id o) ↔ o !! "id" = Some (JStr id).
Proof. rewrite Is_true_true. apply matches_true. Qed.

(** [find] returns the first record carrying the id, and where it is. *)
Lemma find_Some id (games : list obj) i o :
  Lodash.find id games = Some (i, o) ↔
  games !! i = Some o ∧ o !! "id" = Some (JStr id) ∧
  ∀ j o', games !! j = Some o' → (j < i)%nat → o' !! "id" ≠ Some (JStr id).
Proof.
  unfold Lodash.find. rewrite list_find_Some.
  setoid_rewrite matches_spec. done.
Qed.

Lemma find_None id (games : list obj) :
  Lodash.find id games = None ↔
  ∀ o, o ∈ games → o !! "id" ≠ Some (JStr id).
Proof.
  unfold Lodash.find. rewrite list_find_None, Forall_forall.
  setoid_rewrite matches_spec. done.
Qed.

(** [assign] property by property: the source wins, the target shows
    through where the source has nothing. *)
Lemma assign_lookup (target source : obj) k :
  Lodash.assign target source !! k =
  match source !! k with Some v => Some v | None => target !! k end.
Proof.
  unfold Lodash.assign. rewrite lookup_union.
  destruct (source !! k), (target !! k); done.
Qed.

(** After a merge that leaves the [id] alone the lookup finds the merged
    record where the old one was. *)
Lemma find_find_assign id (body : obj) (games : list obj) i o :
  Lodash.find id games = Some (i, o) →
  body !! "id" = None ∨ body !! "id" = Some (JStr id) →
  Lodash.find id (Lodash.find_assign id body games) =
  Some (i, Lodash.assign o body).
Proof.
  intros Hfind Hbody. unfold Lodash.find_assign. rewrite Hfind.
  apply find_Some in Hfind as (Hi & Hid & Hfirst).
  apply find_Some. split_and!.
  - apply list_lookup_insert_eq. by eapply lookup_lt_Some.
  - rewrite assign_lookup. by destruct Hbody as [-> | ->].
  - intros j o' Hj Hlt. rewrite list_lookup_insert_ne in Hj by lia.
    by eapply Hfirst.
Qed.


(** ** The store and the response, step by step *)

Lemma write_ok f s :
  faults s 0%nat = None →
  Lowdb.write f s = (Ret tt, tick (set_db (f (db s)) s)).
Proof. intros H. unfold Lowdb.write. by rewrite H. Qed.

Lemma write_fault f s e :
  faults s 0%nat = Some e →
  Lowdb.write f s = (Throw e, tick (set_db (f (db s)) s)).
Proof. intros H. unfold Lowdb.write. by rewrite H. Qed.

Lemma value_ok q s :
  faults s 0%nat = None →
  Lowdb.value q s = (Ret (Lowdb.resolve q (db s)), tick s).
Proof. intros H. unfold Lowdb.value. by rewrite H. Qed.

Lemma value_fault q s e :
  faults s 0%nat = Some e → Lowdb.value q s = (Throw e, tick s).
Proof. intros H. unfold Lowdb.value. by rewrite H. Qed.

(** The catch clause of create and update on a response that has not gone
    out, for a caught value that is not a number. *)
Lemma catch_sends s e :
  headersSent (res s) = false →
  (∀ n, e ≠ JNum n) →
  (Express.status 500 ;; Express.send (Express.thrown e)) s =
  (Ret tt,
   set_res (sent 500 (match e with
                      | JStr t => Some (Text t)
                      | JNull => Some (Text "")
                      | _ => Some (Json e)
                      end)) s).
Proof.
  intros Hs He. unfold mbind, M_bind, Express.status. rewrite Hs.
  destruct e as [|b|n|t|items|fields]; try done.
  by destruct (He n).
Qed.

(** The response methods touch neither the array nor the store. *)
Lemma finish_frame b s :
  db (Express.finish b s).2 = db s ∧ faults (Express.finish b s).2 = faults s.
Proof.
  unfold Express.finish. destruct (headersSent (res s)); [by destruct b|].
  by destruct (Express.valid_status _).
Qed.

Lemma status_frame code s :
  ∃ s', Express.status code s = (Ret tt, s') ∧ db s' = db s ∧ faults s' = faults s.
Proof.
  unfold Express.status. destruct (headersSent (res s)); by eexists.
Qed.

Lemma send_thrown_frame e s :
  db (Express.send (Express.thrown e) s).2 = db s ∧
  faults (Express.send (Express.thrown e) s).2 = faults s.
Proof.
  destruct e as [|b|n|t|items|fields];
    unfold Express.thrown, Express.send, Express.json_;
    try apply finish_frame.
  unfold mbind, M_bind.
  destruct (status_frame n s) as (s' & -> & Hdb & Hfl).
  destruct (finish_frame (Text <$> Express.messages !! n) s') as [Hdb' Hfl'].
  split; congruence.
Qed.

Lemma catch_frame s e :
  db ((Express.status 500 ;; Express.send (Express.thrown e)) s).2 = db s ∧
  faults ((Express.status 500 ;; Express.send (Express.thrown e)) s).2 = faults s.
Proof.
  unfold mbind, M_bind.
  destruct (status_frame 500 s) as (s' & -> & Hdb & Hfl).
  destruct (send_thrown_frame e s') as [Hdb' Hfl'].
  split; congruence.
Qed.

(** ** The handlers, run on a store that lets the accesses through *)

Lemma get_run games fl :
  fl 0%nat = None →
  serve router.get games fl =
  (Ret tt, {| db := games;
              res := sent 200 (Some (Json (JArr (JObj <$> games))));
              faults := λ n, fl (S n) |}).
Proof.
  intros H. unfold serve, router.get, Express.send, Express.json_.
  unfold mbind, M_bind, Lowdb.value. simpl. by rewrite H.
Qed.

Lemma get_id_run id games fl :
  fl 0%nat = None →
  serve (router.get_id id) games fl =
  (Ret tt, {| db := games;
              res := match Lodash.find id games with
                     | Some (_, o) => sent 200 (Some (Json (JObj o)))
                     | None => sent 404 (Some (Text "Not Found"))
                     end;
              faults := λ n, fl (S n) |}).
Proof.
  intros H. unfold serve, router.get_id.
  unfold mbind, M_bind, Lowdb.value. simpl. rewrite H.
  destruct (Lodash.find id games) as [[i o]|]; reflexivity.
Qed.

Lemma post_run body pool games fl :
  fl 0%nat = None →
  let game := Lodash.assign {[ "id" := JStr (Nanoid.nanoid idLength pool) ]} body in
  serve (router.post body pool) games fl =
  (Ret tt, {| db := games ++ [game];
              res := sent 200 (Some (Json (JObj game)));
              faults := λ n, fl (S n) |}).
Proof.
  intros H game. unfold serve, router.post, try_catch.
  unfold mbind, M_bind, Lowdb.write. simpl. by rewrite H.
Qed.

Lemma put_run id body games fl :
  fl 0%nat = None → fl 1%nat = None →
  let games' := Lodash.find_assign id body games in
  serve (router.put id body) games fl =
  (Ret tt, {| db := games';
              res := sent 200 (Json <$> Lowdb.resolve (Lowdb.Find id) games');
              faults := λ n, fl (S (S n)) |}).
Proof.
  intros H0 H1 games'. unfold serve, router.put, try_catch.
  unfold mbind at 1. unfold M_bind at 1.
  rewrite write_ok by done.
  unfold Express.send, Express.json_. unfold mbind at 1. unfold M_bind at 1.
  rewrite value_ok by done. reflexivity.
Qed.

Lemma delete_run id games fl :
  fl 0%nat = None →
  serve (router.delete id) games fl =
  (Ret tt, {| db := Lodash.remove id games;
              res := sent 200 (Some (Text "OK"));
              faults := λ n, fl (S n) |}).
Proof.
  intros H. unfold serve, router.delete.
  unfold mbind, M_bind, Lowdb.write. simpl. by rewrite H.
Qed.

(** ** Create *)

(** C1. When the body of a create request has an [id] property, the record
    that is appended to the collection and sent back (status 200) carries
    the body's [id]: the spread of the body comes after the generated
    token and overrides it, so the record is the body itself. *)
Theorem post_keeps_payload_id (body : obj) pool (games : list obj) fl v :
  body !! "id" = Some v →
  fl 0%nat = None →
  ∃ game final,
    serve (router.post body pool) games fl = (Ret tt, final) ∧
    db final = games ++ [game] ∧
    res final = sent 200 (Some (Json (JObj game))) ∧
    game !! "id" = Some v ∧
    (v ≠ JStr (Nanoid.nanoid idLength pool) →
     game !! "id" ≠ Some (JStr (Nanoid.nanoid idLength pool))) ∧
    game = body.
Proof.
  intros Hid Hfl.
  exists (Lodash.assign {[ "id" := JStr (Nanoid.nanoid idLength pool) ]} body).
  eexists. split; [by apply post_run|]. simpl.
  assert (Hgame : Lodash.assign
            {[ "id" := JStr (Nanoid.nanoid idLength pool) ]} body !! "id" = Some v)
    by (by rewrite assign_lookup, Hid).
  split_and!; [done|done|done|rewrite Hgame; congruence|].
  apply map_eq. intros k. rewrite assign_lookup.
  destruct (body !! k) eqn:E; [done|].
  apply lookup_singleton_ne. intros <-. congruence.
Qed.

Lemma post_keeps_payload_id_witness :
  stored "mine" batman !! "id" = Some (JStr "mine") ∧
  ∃ game final,
    serve (router.post (stored "mine" batman) zeros) [] sound = (Ret tt, final) ∧
    db final = [] ++ [game] ∧
    res final = sent 200 (Some (Json (JObj game))) ∧
    game !! "id" = Some (JStr "mine") ∧
    (JStr "mine" ≠ JStr (Nanoid.nanoid idLength zeros) →
     game !! "id" ≠ Some (JStr (Nanoid.nanoid idLength zeros))) ∧
    game = stored "mine" batman.
Proof.
  split; [reflexivity|].
  apply (post_keeps_payload_id (stored "mine" batman) zeros [] sound (JStr "mine"));
    reflexivity.
Defined.

(** C3. When the body of a create request has no [id] property and the store
    accepts the write, the response is 200 with the created record, whose
    [id] is the token [nanoid] generated: a non-empty string of exactly 8
    characters; its [title] and [genre] are the body's. *)
Theorem post_generates_id (body : obj) pool (games : list obj) fl :
  body !! "id" = None →
  fl 0%nat = None →
  ∃ game token final,
    serve (router.post body pool) games fl = (Ret tt, final) ∧
    res final = sent 200 (Some (Json (JObj game))) ∧
    game !! "id" = Some (JStr token) ∧
    token = Nanoid.nanoid idLength pool ∧
    String.length token = 8%nat ∧
    token ≠ "" ∧
    game !! "title" = body !! "title" ∧
    game !! "genre" = body !! "genre".
Proof.
  intros Hid Hfl.
  exists (Lodash.assign {[ "id" := JStr (Nanoid.nanoid idLength pool) ]} body).
  exists (Nanoid.nanoid idLength pool).
  eexists. split; [by apply post_run|]. simpl.
  assert (Hlen : String.length (Nanoid.nanoid idLength pool) = 8%nat)
    by apply nanoid_length.
  split_and!.
  - done.
  - rewrite assign_lookup, Hid. apply lookup_singleton_eq.
  - done.
  - done.
  - intros E. by rewrite E in Hlen.
  - rewrite assign_lookup. destruct (body !! "title"); [done|].
    by apply lookup_singleton_ne.
  - rewrite assign_lookup. destruct (body !! "genre"); [done|].
    by apply lookup_singleton_ne.
Qed.

Lemma post_generates_id_witness :
  batman !! "id" = None ∧
  ∃ game token final,
    serve (router.post batman zeros) [] sound = (Ret tt, final) ∧
    res final = sent 200 (Some (Json (JObj game))) ∧
    game !! "id" = Some (JStr token) ∧
    token = Nanoid.nanoid idLength zeros ∧
    String.length token = 8%nat ∧
    token ≠ "" ∧
    game !! "title" = batman !! "title" ∧
    game !! "genre" = batman !! "genre".
Proof.
  split; [reflexivity|].
  apply (post_generates_id batman zeros [] sound); reflexivity.
Defined.

(** ** Get by id *)

(** C4, as stated, fails where no record matches: the 404 that
    [res.sendStatus] sends has the status message as its body. Against an
    empty collection the client receives [Not Found], not an empty body. *)
Lemma get_id_missing_has_text_body :
  Lodash.find "nope" [] = None ∧
  res (serve (router.get_id "nope") [] sound).2 = sent 404 (Some (Text "Not Found")) ∧
  res (serve (router.get_id "nope") [] sound).2 ≠ sent 404 None.
Proof. split_and!; [reflexivity|reflexivity|discriminate]. Qed.

(** C4, amended. When the store lets the read through, GET /games/:id
    leaves the collection as it is and answers 200 with the JSON of the
    first record whose [id] is the path id; when no record has that id it
    answers 404 with the text [Not Found] as body. *)
Theorem get_id_first_or_404 id (games : list obj) fl :
  fl 0%nat = None →
  ∃ final,
    serve (router.get_id id) games fl = (Ret tt, final) ∧
    db final = games ∧
    ((∃ i o,
        games !! i = Some o ∧ o !! "id" = Some (JStr id) ∧
        (∀ j o', games !! j = Some o' → (j < i)%nat → o' !! "id" ≠ Some (JStr id)) ∧
        res final = sent 200 (Some (Json (JObj o))))
     ∨
     ((∀ o, o ∈ games → o !! "id" ≠ Some (JStr id)) ∧
      res final = sent 404 (Some (Text "Not Found")))).
Proof.
  intros Hfl. eexists. split; [by apply get_id_run|]. simpl.
  split; [done|].
  destruct (Lodash.find id games) as [[i o]|] eqn:E.
  - left. exists i, o. apply find_Some in E as (?&?&?). done.
  - right. split; [|done]. by apply find_None.
Qed.

Lemma get_id_first_or_404_witness :
  sound 0%nat = None ∧
  ∃ final,
    serve (router.get_id "a") [stored "b" ∅; stored "a" batman] sound = (Ret tt, final) ∧
    res final = sent 200 (Some (Json (JObj (stored "a" batman)))).
Proof.
  split; [reflexivity|].
  destruct (get_id_first_or_404 "a" [stored "b" ∅; stored "a" batman] sound eq_refl)
    as (final & Hrun & _ & _).
  exists final. split; [exact Hrun|].
  apply (f_equal snd) in Hrun. simpl in Hrun. rewrite <- Hrun. reflexivity.
Defined.

(** ** Delete *)

(** C5, as stated, fails on a collection that holds the id twice, which a
    create with a client-chosen [id] produces: [remove] takes out both
    records where the claim has only the first one go, and the 200 that
    [res.sendStatus] sends has the body [OK]. *)
Lemma delete_removes_every_match :
  db (serve (router.delete "a") twins sound).2 = [] ∧
  spec_delete_first "a" twins = [stored "a" ∅] ∧
  db (serve (router.delete "a") twins sound).2 ≠ spec_delete_first "a" twins ∧
  res (serve (router.delete "a") twins sound).2 = sent 200 (Some (Text "OK")) ∧
  res (serve (router.delete "a") twins sound).2 ≠ sent 200 None.
Proof.
  split_and!; [reflexivity|reflexivity|discriminate|reflexivity|discriminate].
Qed.

(** C5, amended. When the store accepts the write, DELETE /games/:id takes
    every record whose [id] is the path id out of the collection and
    answers 200 with the text [OK] as body; when no record has that id the
    collection is unchanged and the answer is the same. *)
Theorem delete_every_match id (games : list obj) fl :
  fl 0%nat = None →
  ∃ final,
    serve (router.delete id) games fl = (Ret tt, final) ∧
    res final = sent 200 (Some (Text "OK")) ∧
    (∀ o, o ∈ db final ↔ o ∈ games ∧ o !! "id" ≠ Some (JStr id)) ∧
    ((∀ o, o ∈ games → o !! "id" ≠ Some (JStr id)) → db final = games).
Proof.
  intros Hfl. eexists. split; [by apply delete_run|]. simpl.
  split_and!; [done| |].
  - intros o. unfold Lodash.remove. rewrite list_elem_of_filter, matches_spec.
    tauto.
  - intros Hno. unfold Lodash.remove. induction games as [|o games IH]; [done|].
    rewrite filter_cons_True.
    + f_equal. apply IH. intros o' Ho'. apply Hno. by right.
    + rewrite matches_spec. apply Hno. by left.
Qed.

Lemma delete_every_match_witness :
  sound 0%nat = None ∧
  ∃ final,
    serve (router.delete "zz") [stored "a" batman] sound = (Ret tt, final) ∧
    res final = sent 200 (Some (Text "OK")) ∧
    (∀ o, o ∈ db final ↔ o ∈ [stored "a" batman] ∧ o !! "id" ≠ Some (JStr "zz")) ∧
    ((∀ o, o ∈ [stored "a" batman] → o !! "id" ≠ Some (JStr "zz")) →
     db final = [stored "a" batman]).
Proof.
  split; [reflexivity|].
  apply (delete_every_match "zz" [stored "a" batman] sound). reflexivity.
Defined.

(** ** Update *)

(** C2, as stated, fails for a payload that names [id]: the merge writes the
    payload's [id] over the record's. The record stored under ["a"] is
    stored under ["b"] after PUT /games/a with the body [{"id": "b"}]. *)
Lemma put_overwrites_id :
  [stored "a" batman] !! 0%nat ≫= (.!! "id") = Some (JStr "a") ∧
  db (serve (router.put "a" {[ "id" := JStr "b" ]}) [stored "a" batman] sound).2
    !! 0%nat ≫= (.!! "id") = Some (JStr "b").
Proof. split; reflexivity. Qed.

(** C2, amended. When the store lets the accesses through, the update
    replaces the first record whose [id] is the path id by the shallow merge
    of the payload onto it. The merged record keeps its [id] for every
    payload that has no [id] property; a payload that has one gives the
    record that [id]. *)
Theorem put_merges_keeping_id id (body : obj) (games : list obj) fl i o :
  Lodash.find id games = Some (i, o) →
  fl 0%nat = None → fl 1%nat = None →
  ∃ final,
    serve (router.put id body) games fl = (Ret tt, final) ∧
    db final = <[i := Lodash.assign o body]> games ∧
    db final !! i = Some (Lodash.assign o body) ∧
    (body !! "id" = None → Lodash.assign o body !! "id" = o !! "id") ∧
    (∀ v, body !! "id" = Some v → Lodash.assign o body !! "id" = Some v).
Proof.
  intros Hfind H0 H1. eexists. split; [by apply put_run|]. simpl.
  unfold Lodash.find_assign. rewrite Hfind.
  apply find_Some in Hfind as (Hi & _ & _).
  split_and!.
  - done.
  - apply list_lookup_insert_eq. by eapply lookup_lt_Some.
  - intros Hb. by rewrite assign_lookup, Hb.
  - intros v Hb. by rewrite assign_lookup, Hb.
Qed.

Lemma put_merges_keeping_id_witness :
  Lodash.find "a" [stored "a" batman] = Some (0%nat, stored "a" batman) ∧
  ∃ final,
    serve (router.put "a" {[ "genre" := JStr "Action" ]}) [stored "a" batman] sound
      = (Ret tt, final) ∧
    db final !! 0%nat
      = Some (Lodash.assign (stored "a" batman) {[ "genre" := JStr "Action" ]}) ∧
    Lodash.assign (stored "a" batman) {[ "genre" := JStr "Action" ]} !! "id"
      = stored "a" batman !! "id".
Proof.
  split; [reflexivity|].
  destruct (put_merges_keeping_id "a" {[ "genre" := JStr "Action" ]}
              [stored "a" batman] sound 0%nat (stored "a" batman)
              eq_refl eq_refl eq_refl)
    as (final & Hrun & _ & Hi & Hkeep & _).
  exists final. split_and!; [exact Hrun|exact Hi|].
  apply Hkeep. reflexivity.
Defined.

(** C6. When the store lets the accesses through, PUT /games/:id on an
    existing record gives every property named in the payload the
    payload's value and leaves every property the payload does not name as
    it was on the stored record; no other record changes. *)
Theorem put_frame id (body : obj) (games : list obj) fl i o :
  Lodash.find id games = Some (i, o) →
  fl 0%nat = None → fl 1%nat = None →
  ∃ final o',
    serve (router.put id body) games fl = (Ret tt, final) ∧
    db final !! i = Some o' ∧
    (∀ k v, body !! k = Some v → o' !! k = Some v) ∧
    (∀ k, body !! k = None → o' !! k = o !! k) ∧
    List.length (db final) = List.length games ∧
    (∀ j, j ≠ i → db final !! j = games !! j).
Proof.
  intros Hfind H0 H1. eexists. exists (Lodash.assign o body).
  split; [by apply put_run|]. simpl.
  unfold Lodash.find_assign. rewrite Hfind.
  apply find_Some in Hfind as (Hi & _ & _).
  split_and!.
  - apply list_lookup_insert_eq. by eapply lookup_lt_Some.
  - intros k v Hb. by rewrite assign_lookup, Hb.
  - intros k Hb. by rewrite assign_lookup, Hb.
  - apply length_insert.
  - intros j Hj. by apply list_lookup_insert_ne.
Qed.

Lemma put_frame_witness :
  Lodash.find "a" [stored "a" batman] = Some (0%nat, stored "a" batman) ∧
  ∃ final o',
    serve (router.put "a" {[ "genre" := JStr "Action" ]}) [stored "a" batman] sound
      = (Ret tt, final) ∧
    db final !! 0%nat = Some o' ∧
    o' !! "genre" = Some (JStr "Action") ∧
    o' !! "title" = Some (JStr "Batman").
Proof.
  split; [reflexivity|].
  destruct (put_frame "a" {[ "genre" := JStr "Action" ]}
              [stored "a" batman] sound 0%nat (stored "a" batman)
              eq_refl eq_refl eq_refl)
    as (final & o' & Hrun & Hi & Hset & Hkeep & _).
  exists final, o'. split_and!; [exact Hrun|exact Hi| |].
  - apply Hset. reflexivity.
  - rewrite Hkeep; reflexivity.
Defined.

(** C7. When no record has the path id and the store lets the accesses
    through, PUT /games/:id answers 200 (with no body, the lookup having
    found nothing), and the collection is what it was: no record is
    created, none is changed. *)
Theorem put_missing_is_noop id (body : obj) (games : list obj) fl :
  Lodash.find id games = None →
  fl 0%nat = None → fl 1%nat = None →
  ∃ final,
    serve (router.put id body) games fl = (Ret tt, final) ∧
    res final = sent 200 None ∧
    db final = games.
Proof.
  intros Hfind H0 H1. eexists. split; [by apply put_run|]. simpl.
  unfold Lodash.find_assign, Lowdb.resolve. rewrite Hfind. simpl.
  by rewrite Hfind.
Qed.

Lemma put_missing_is_noop_witness :
  Lodash.find "zz" [stored "a" batman] = None ∧
  ∃ final,
    serve (router.put "zz" batman) [stored "a" batman] sound = (Ret tt, final) ∧
    res final = sent 200 None ∧
    db final = [stored "a" batman].
Proof.
  split; [reflexivity|].
  apply (put_missing_is_noop "zz" batman [stored "a" batman] sound); reflexivity.
Defined.

(** C8, as stated, fails: what the client receives is not a query object.
    The handler hands the chain [db.get("games").find({ id })] to
    [res.send] unevaluated, but [res.send] serialises it through its
    [toJSON], which evaluates it. A PUT of [{"genre": "Action"}] on the
    record stored under ["a"] is answered with the plain merged record. *)
Lemma put_answers_plain_record :
  res (serve (router.put "a" {[ "genre" := JStr "Action" ]})
         [stored "a" batman] sound).2 =
  sent 200
    (Some (Json (JObj (<[ "id" := JStr "a" ]>
                         (<[ "title" := JStr "Batman" ]>
                            {[ "genre" := JStr "Action" ]}))))).
Proof. reflexivity. Qed.

(** C8, amended. When the store lets the accesses through, PUT /games/:id
    answers 200 with the value of a lookup for the path id made on the
    collection after the write: the JSON of the first record stored under
    the path id at that point, as a plain record, and no body when no
    record is stored under it. When the PUT found a record and its payload
    leaves the [id] alone, that is the merged record, stored where the
    record found was. *)
Theorem put_answers_first_stored id (body : obj) (games : list obj) fl :
  fl 0%nat = None → fl 1%nat = None →
  ∃ final,
    serve (router.put id body) games fl = (Ret tt, final) ∧
    ((∃ i o,
        db final !! i = Some o ∧ o !! "id" = Some (JStr id) ∧
        (∀ j o', db final !! j = Some o' → (j < i)%nat →
                 o' !! "id" ≠ Some (JStr id)) ∧
        res final = sent 200 (Some (Json (JObj o))))
     ∨
     ((∀ o, o ∈ db final → o !! "id" ≠ Some (JStr id)) ∧
      res final = sent 200 None)) ∧
    (∀ i o,
       games !! i = Some o → o !! "id" = Some (JStr id) →
       (∀ j o', games !! j = Some o' → (j < i)%nat →
                o' !! "id" ≠ Some (JStr id)) →
       body !! "id" = None ∨ body !! "id" = Some (JStr id) →
       ∃ merged,
         res final = sent 200 (Some (Json (JObj merged))) ∧
         db final !! i = Some merged ∧
         ∀ k, merged !! k =
              match body !! k with Some v => Some v | None => o !! k end).
Proof.
  intros H0 H1. eexists. split; [by apply put_run|]. simpl. split.
  - destruct (Lodash.find id (Lodash.find_assign id body games))
      as [[i o]|] eqn:E.
    + left. exists i, o. apply find_Some in E as (?&?&?). done.
    + right. split; [|done]. by apply find_None.
  - intros i o Hi Hid Hfirst Hbody.
    assert (Hfind : Lodash.find id games = Some (i, o)) by (by apply find_Some).
    exists (Lodash.assign o body).
    rewrite (find_find_assign id body games i o Hfind Hbody).
    split_and!; [done| |apply assign_lookup].
    unfold Lodash.find_assign. rewrite Hfind.
    apply list_lookup_insert_eq. by eapply lookup_lt_Some.
Qed.

Lemma put_answers_first_stored_witness :
  sound 0%nat = None ∧ sound 1%nat = None ∧
  ∃ final merged,
    serve (router.put "a" {[ "genre" := JStr "Action" ]}) [stored "a" batman] sound
      = (Ret tt, final) ∧
    res final = sent 200 (Some (Json (JObj merged))) ∧
    db final !! 0%nat = Some merged ∧
    merged !! "genre" = Some (JStr "Action") ∧
    merged !! "title" = Some (JStr "Batman").
Proof.
  split_and!; [reflexivity|reflexivity|].
  destruct (put_answers_first_stored "a" {[ "genre" := JStr "Action" ]}
              [stored "a" batman] sound eq_refl eq_refl)
    as (final & Hrun & _ & Hmerged).
  destruct (Hmerged 0%nat (stored "a" batman)) as (merged & Hres & Hdb & Hk).
  - reflexivity.
  - reflexivity.
  - intros j o' _ Hlt. lia.
  - left. reflexivity.
  - exists final, merged. split_and!; [exact Hrun|exact Hres|exact Hdb| |].
    + rewrite Hk. reflexivity.
    + rewrite Hk. reflexivity.
Defined.

(** ** Store exceptions *)

Lemma post_fault body pool games fl e :
  fl 0%nat = Some e →
  (∀ n, e ≠ JNum n) →
  serve (router.post body pool) games fl =
  (Ret tt, {| db := games ++ [created body pool];
              res := sent 500 (match e with
                               | JStr t => Some (Text t)
                               | JNull => Some (Text "")
                               | _ => Some (Json e)
                               end);
              faults := λ n, fl (S n) |}).
Proof.
  intros H He. unfold serve, router.post, try_catch.
  unfold mbind at 1. unfold M_bind at 1.
  rewrite (write_fault _ _ e) by done. cbv beta iota.
  by rewrite catch_sends.
Qed.

Lemma put_fault_write id body games fl e :
  fl 0%nat = Some e →
  (∀ n, e ≠ JNum n) →
  serve (router.put id body) games fl =
  (Ret tt, {| db := Lodash.find_assign id body games;
              res := sent 500 (match e with
                               | JStr t => Some (Text t)
                               | JNull => Some (Text "")
                               | _ => Some (Json e)
                               end);
              faults := λ n, fl (S n) |}).
Proof.
  intros H He. unfold serve, router.put, try_catch.
  unfold mbind at 1. unfold M_bind at 1.
  rewrite (write_fault _ _ e) by done. cbv beta iota.
  by rewrite catch_sends.
Qed.

Lemma put_fault_lookup id body games fl e :
  fl 0%nat = None → fl 1%nat = Some e →
  (∀ n, e ≠ JNum n) →
  serve (router.put id body) games fl =
  (Ret tt, {| db := Lodash.find_assign id body games;
              res := sent 500 (match e with
                               | JStr t => Some (Text t)
                               | JNull => Some (Text "")
                               | _ => Some (Json e)
                               end);
              faults := λ n, fl (S (S n)) |}).
Proof.
  intros H0 H1 He. unfold serve, router.put, try_catch.
  unfold mbind at 1. unfold M_bind at 1.
  rewrite write_ok by done.
  unfold Express.send at 1. unfold Express.json_.
  unfold mbind at 1. unfold M_bind at 1.
  rewrite (value_fault _ _ e) by done. cbv beta iota.
  by rewrite catch_sends.
Qed.




(** ** Frame *)



(** * Further properties of the router *)

(** ** The collection after a request, whatever the store does *)

Lemma get_db games fl : db (serve router.get games fl).2 = games.
Proof.
  unfold serve, router.get, Express.send, Express.json_.
  unfold mbind, M_bind, Lowdb.value. simpl. by destruct (fl 0%nat).
Qed.

Lemma get_id_db id games fl : db (serve (router.get_id id) games fl).2 = games.
Proof.
  unfold serve, router.get_id.
  unfold mbind, M_bind, Lowdb.value. simpl. destruct (fl 0%nat); [done|].
  by destruct (Lodash.find id games) as [[i o]|].
Qed.

Lemma post_db body pool games fl :
  db (serve (router.post body pool) games fl).2 =
  games ++ [Lodash.assign {[ "id" := JStr (Nanoid.nanoid idLength pool) ]} body].
Proof.
  destruct (fl 0%nat) as [e|] eqn:E; [|by rewrite post_run].
  unfold serve, router.post, try_catch.
  unfold mbind at 1. unfold M_bind at 1.
  rewrite (write_fault _ _ e) by done. cbv beta iota.
  by rewrite (proj1 (catch_frame _ e)).
Qed.

Lemma post_faults body pool games fl k :
  faults (serve (router.post body pool) games fl).2 k = fl (S k).
Proof.
  destruct (fl 0%nat) as [e|] eqn:E; [|by rewrite post_run].
  unfold serve, router.post, try_catch.
  unfold mbind at 1. unfold M_bind at 1.
  rewrite (write_fault _ _ e) by done. cbv beta iota.
  by rewrite (proj2 (catch_frame _ e)).
Qed.

Lemma put_db id body games fl :
  db (serve (router.put id body) games fl).2 = Lodash.find_assign id body games.
Proof.
  destruct (fl 0%nat) as [e|] eqn:E0.
  - unfold serve, router.put, try_catch.
    unfold mbind at 1. unfold M_bind at 1.
    rewrite (write_fault _ _ e) by done. cbv beta iota.
    by rewrite (proj1 (catch_frame _ e)).
  - destruct (fl 1%nat) as [e|] eqn:E1; [|by rewrite put_run].
    unfold serve, router.put, try_catch.
    unfold mbind at 1. unfold M_bind at 1.
    rewrite write_ok by done.
    unfold Express.send at 1. unfold Express.json_.
    unfold mbind at 1. unfold M_bind at 1.
    rewrite (value_fault _ _ e) by done. cbv beta iota.
    by rewrite (proj1 (catch_frame _ e)).
Qed.

Lemma delete_db id games fl :
  db (serve (router.delete id) games fl).2 = Lodash.remove id games.
Proof.
  unfold serve, router.delete.
  unfold mbind, M_bind, Lowdb.write. simpl. by destruct (fl 0%nat).
Qed.

Lemma delete_fault id games fl e :
  fl 0%nat = Some e →
  serve (router.delete id) games fl =
  (Throw e, {| db := Lodash.remove id games; res := fresh;
               faults := λ n, fl (S n) |}).
Proof.
  intros H. unfold serve, router.delete.
  unfold mbind, M_bind, Lowdb.write. simpl. by rewrite H.
Qed.

(** ** lodash on the collection *)

Lemma elem_of_remove id (games : list obj) o :
  o ∈ Lodash.remove id games ↔ o ∈ games ∧ o !! "id" ≠ Some (JStr id).
Proof.
  unfold Lodash.remove. rewrite list_elem_of_filter, matches_spec. tauto.
Qed.

Lemma find_remove id (games : list obj) :
  Lodash.find id (Lodash.remove id games) = None.
Proof. apply find_None. intros o Ho. by apply elem_of_remove in Ho as [_ ?]. Qed.

Lemma remove_id_absent id (games : list obj) :
  (∀ o, o ∈ games → o !! "id" ≠ Some (JStr id)) →
  Lodash.remove id games = games.
Proof.
  intros Hno. unfold Lodash.remove. induction games as [|o games IH]; [done|].
  rewrite filter_cons_True.
  - f_equal. apply IH. intros o' Ho'. apply Hno. by right.
  - rewrite matches_spec. apply Hno. by left.
Qed.

Lemma assign_assign (o body : obj) :
  Lodash.assign (Lodash.assign o body) body = Lodash.assign o body.
Proof.
  apply map_eq. intros k. rewrite !assign_lookup. by destruct (body !! k).
Qed.

Lemma find_push_fresh id (games : list obj) (game : obj) :
  game !! "id" = Some (JStr id) →
  (∀ o, o ∈ games → o !! "id" ≠ Some (JStr id)) →
  Lodash.find id (games ++ [game]) = Some (List.length games, game).
Proof.
  intros Hid Hfresh. apply find_Some. split_and!.
  - rewrite lookup_app_r by lia. by rewrite Nat.sub_diag.
  - done.
  - intros j o Hj Hlt. rewrite lookup_app_l in Hj by done.
    apply Hfresh. by eapply list_elem_of_lookup_2.
Qed.

Lemma find_push_taken id (games : list obj) (game : obj) i o :
  Lodash.find id games = Some (i, o) →
  Lodash.find id (games ++ [game]) = Some (i, o).
Proof.
  intros (Hi & Hid & Hfirst)%find_Some. apply find_Some. split_and!.
  - by apply lookup_app_l_Some.
  - done.
  - intros j o' Hj Hlt. apply (Hfirst j o'); [|done].
    rewrite lookup_app_l in Hj; [done|].
    apply lookup_lt_Some in Hi. lia.
Qed.

(** ** Reading *)

(** X1. The list after a create: once a create has gone through, GET /games
    answers 200 with the JSON array of the records that were there, in
    their order, followed by the record the create answered with. *)
Theorem list_after_create (body : obj) pool (games : list obj) fl :
  calm fl →
  ∃ after final,
    serve (router.post body pool) games fl = (Ret tt, after) ∧
    res after = sent 200 (Some (Json (JObj (created body pool)))) ∧
    then_serve router.get (Ret tt, after) = (Ret tt, final) ∧
    res final =
      sent 200 (Some (Json (JArr ((JObj <$> games) ++ [JObj (created body pool)])))) ∧
    db final = games ++ [created body pool].
Proof.
  intros Hfl. eexists. eexists.
  split; [by apply post_run|]. split; [done|].
  unfold then_serve. simpl.
  split; [by apply get_run|]. simpl. by rewrite fmap_app.
Qed.

Lemma list_after_create_witness :
  calm sound ∧
  ∃ after final,
    serve (router.post batman zeros) [stored "a" ∅] sound = (Ret tt, after) ∧
    res after = sent 200 (Some (Json (JObj (created batman zeros)))) ∧
    then_serve router.get (Ret tt, after) = (Ret tt, final) ∧
    res final =
      sent 200 (Some (Json (JArr ((JObj <$> [stored "a" ∅])
                                    ++ [JObj (created batman zeros)])))) ∧
    db final = [stored "a" ∅] ++ [created batman zeros].
Proof.
  split; [intros n; reflexivity|].
  apply (list_after_create batman zeros [stored "a" ∅] sound).
  intros n; reflexivity.
Defined.

(** X2. The two read handlers never change the collection: whatever the
    store does, and whether the id is found or not, the array after
    GET /games and after GET /games/:id is the array before. *)
Theorem reads_leave_collection (games : list obj) fl id :
  db (serve router.get games fl).2 = games ∧
  db (serve (router.get_id id) games fl).2 = games.
Proof. split; [apply get_db | apply get_id_db]. Qed.

(** X3. A created record can be fetched under its id, provided the id is a
    string no stored record carries already: GET /games/:id on that id
    answers 200 with the created record. *)
Theorem get_after_create (body : obj) pool (games : list obj) fl id :
  calm fl →
  created body pool !! "id" = Some (JStr id) →
  (∀ o, o ∈ games → o !! "id" ≠ Some (JStr id)) →
  ∃ final,
    then_serve (router.get_id id) (serve (router.post body pool) games fl)
      = (Ret tt, final) ∧
    res final = sent 200 (Some (Json (JObj (created body pool)))).
Proof.
  intros Hfl Hid Hfresh. unfold then_serve.
  rewrite post_run by apply Hfl. simpl.
  eexists. split; [by apply get_id_run|]. simpl.
  fold (created body pool). by rewrite (find_push_fresh id games _ Hid Hfresh).
Qed.

Lemma get_after_create_witness :
  calm sound ∧
  created batman zeros !! "id" = Some (JStr "uuuuuuuu") ∧
  ∃ final,
    then_serve (router.get_id "uuuuuuuu")
      (serve (router.post batman zeros) [stored "a" ∅] sound) = (Ret tt, final) ∧
    res final = sent 200 (Some (Json (JObj (created batman zeros)))).
Proof.
  split; [intros n; reflexivity|]. split; [reflexivity|].
  apply (get_after_create batman zeros [stored "a" ∅] sound "uuuuuuuu").
  - intros n; reflexivity.
  - reflexivity.
  - intros o Ho. apply list_elem_of_singleton in Ho. subst o. discriminate.
Defined.

(** X4. The id of a create is not checked against the collection: a create
    whose body names an id that a stored record carries goes through, the
    collection then holds both, and GET /games/:id on that id keeps
    answering with the record that was there first. *)
Theorem create_under_taken_id (body : obj) pool (games : list obj) fl id i o :
  calm fl →
  Lodash.find id games = Some (i, o) →
  body !! "id" = Some (JStr id) →
  ∃ after final,
    serve (router.post body pool) games fl = (Ret tt, after) ∧
    res after = sent 200 (Some (Json (JObj body))) ∧
    db after = games ++ [body] ∧
    then_serve (router.get_id id) (Ret tt, after) = (Ret tt, final) ∧
    res final = sent 200 (Some (Json (JObj o))).
Proof.
  intros Hfl Hfind Hid.
  assert (Hbody : created body pool = body).
  { apply map_eq. intros k. unfold created. rewrite assign_lookup.
    destruct (body !! k) eqn:E; [done|].
    apply lookup_singleton_ne. intros <-. congruence. }
  eexists. eexists. split; [by apply post_run|].
  fold (created body pool). rewrite Hbody. split_and!; [done|done| |].
  - unfold then_serve. simpl. by apply get_id_run.
  - simpl. by rewrite (find_push_taken id games body i o Hfind).
Qed.

Lemma create_under_taken_id_witness :
  calm sound ∧
  Lodash.find "a" [stored "a" batman] = Some (0%nat, stored "a" batman) ∧
  ∃ after final,
    serve (router.post (stored "a" ∅) zeros) [stored "a" batman] sound
      = (Ret tt, after) ∧
    res after = sent 200 (Some (Json (JObj (stored "a" ∅)))) ∧
    db after = [stored "a" batman] ++ [stored "a" ∅] ∧
    then_serve (router.get_id "a") (Ret tt, after) = (Ret tt, final) ∧
    res final = sent 200 (Some (Json (JObj (stored "a" batman)))).
Proof.
  split; [intros n; reflexivity|]. split; [reflexivity|].
  apply (create_under_taken_id (stored "a" ∅) zeros [stored "a" batman] sound
           "a" 0%nat (stored "a" batman)).
  - intros n; reflexivity.
  - reflexivity.
  - reflexivity.
Defined.

(** ** Deleting *)

(** X5. After a delete the id is gone: GET /games/:id on the deleted id
    answers 404, and a PUT on it leaves the collection as the delete left
    it. This holds for every collection, the id stored twice included,
    because the delete takes out every match. *)
Theorem deleted_id_is_gone id (body : obj) (games : list obj) fl :
  calm fl →
  ∃ after final final',
    serve (router.delete id) games fl = (Ret tt, after) ∧
    then_serve (router.get_id id) (Ret tt, after) = (Ret tt, final) ∧
    res final = sent 404 (Some (Text "Not Found")) ∧
    then_serve (router.put id body) (Ret tt, after) = (Ret tt, final') ∧
    db final' = db after.
Proof.
  intros Hfl. eexists. eexists. eexists.
  split; [by apply delete_run|]. unfold then_serve. simpl.
  split; [by apply get_id_run|]. simpl. rewrite find_remove.
  split; [done|]. split; [by apply put_run|]. simpl.
  unfold Lodash.find_assign. by rewrite find_remove.
Qed.

Lemma deleted_id_is_gone_witness :
  calm sound ∧
  ∃ after final final',
    serve (router.delete "a") twins sound = (Ret tt, after) ∧
    then_serve (router.get_id "a") (Ret tt, after) = (Ret tt, final) ∧
    res final = sent 404 (Some (Text "Not Found")) ∧
    then_serve (router.put "a" batman) (Ret tt, after) = (Ret tt, final') ∧
    db final' = db after.
Proof.
  split; [intros n; reflexivity|].
  apply (deleted_id_is_gone "a" batman twins sound). intros n; reflexivity.
Defined.

(** X6. Deleting is idempotent on the collection: a second DELETE of the
    same id leaves the array the first one left, whatever the store does
    on either request. *)
Theorem delete_twice id (games : list obj) fl :
  db (then_serve (router.delete id) (serve (router.delete id) games fl)).2 =
  db (serve (router.delete id) games fl).2.
Proof.
  unfold then_serve. rewrite !delete_db.
  apply remove_id_absent. intros o Ho. by apply elem_of_remove in Ho as [_ ?].
Qed.

(** X7. Deletes of two ids commute: the collection after deleting [a] then
    [b] is the collection after deleting [b] then [a]. *)
Theorem delete_commutes a b (games : list obj) fl fl' :
  db (then_serve (router.delete b) (serve (router.delete a) games fl)).2 =
  db (then_serve (router.delete a) (serve (router.delete b) games fl')).2.
Proof.
  unfold then_serve. rewrite !delete_db. unfold Lodash.remove.
  rewrite !list_filter_filter. apply list_filter_iff. intros o. tauto.
Qed.

(** ** Updating *)

(** X8. When the payload leaves the id alone (it has no [id] property, or
    the path id itself), a PUT that finds a record answers 200 with the
    merged record. *)
Theorem put_answers_merged id (body : obj) (games : list obj) fl i o :
  Lodash.find id games = Some (i, o) →
  body !! "id" = None ∨ body !! "id" = Some (JStr id) →
  fl 0%nat = None → fl 1%nat = None →
  ∃ final,
    serve (router.put id body) games fl = (Ret tt, final) ∧
    res final = sent 200 (Some (Json (JObj (Lodash.assign o body)))).
Proof.
  intros Hfind Hbody H0 H1. eexists. split; [by apply put_run|]. simpl.
  by rewrite (find_find_assign id body games i o Hfind Hbody).
Qed.

Lemma put_answers_merged_witness :
  Lodash.find "a" [stored "a" batman] = Some (0%nat, stored "a" batman) ∧
  ∃ final,
    serve (router.put "a" {[ "genre" := JStr "Action" ]}) [stored "a" batman] sound
      = (Ret tt, final) ∧
    res final =
      sent 200 (Some (Json (JObj (Lodash.assign (stored "a" batman)
                                    {[ "genre" := JStr "Action" ]})))).
Proof.
  split; [reflexivity|].
  apply (put_answers_merged "a" {[ "genre" := JStr "Action" ]}
           [stored "a" batman] sound 0%nat (stored "a" batman));
    [reflexivity | left; reflexivity | reflexivity | reflexivity].
Defined.

(** X9. What an update wrote is what a read returns: after a PUT that
    finds a record and leaves the id alone, GET /games/:id on that id
    answers 200 with the merged record. *)
Theorem get_after_put id (body : obj) (games : list obj) fl i o :
  calm fl →
  Lodash.find id games = Some (i, o) →
  body !! "id" = None ∨ body !! "id" = Some (JStr id) →
  ∃ final,
    then_serve (router.get_id id) (serve (router.put id body) games fl)
      = (Ret tt, final) ∧
    res final = sent 200 (Some (Json (JObj (Lodash.assign o body)))).
Proof.
  intros Hfl Hfind Hbody. unfold then_serve.
  rewrite put_run by apply Hfl. simpl.
  eexists. split; [by apply get_id_run|]. simpl.
  by rewrite (find_find_assign id body games i o Hfind Hbody).
Qed.

Lemma get_after_put_witness :
  calm sound ∧
  Lodash.find "a" [stored "a" batman] = Some (0%nat, stored "a" batman) ∧
  ∃ final,
    then_serve (router.get_id "a")
      (serve (router.put "a" {[ "genre" := JStr "Action" ]})
         [stored "a" batman] sound) = (Ret tt, final) ∧
    res final =
      sent 200 (Some (Json (JObj (Lodash.assign (stored "a" batman)
                                    {[ "genre" := JStr "Action" ]})))).
Proof.
  split; [intros n; reflexivity|]. split; [reflexivity|].
  apply (get_after_put "a" {[ "genre" := JStr "Action" ]}
           [stored "a" batman] sound 0%nat (stored "a" batman));
    [intros n; reflexivity | reflexivity | left; reflexivity].
Defined.

(** X10. An update that leaves the id alone is idempotent on the
    collection: sending the same PUT a second time changes nothing more,
    whether the id is found or not and whatever the store does. *)
Theorem put_twice id (body : obj) (games : list obj) fl :
  body !! "id" = None ∨ body !! "id" = Some (JStr id) →
  db (then_serve (router.put id body) (serve (router.put id body) games fl)).2 =
  db (serve (router.put id body) games fl).2.
Proof.
  intros Hbody. unfold then_serve. rewrite !put_db.
  destruct (Lodash.find id games) as [[i o]|] eqn:Hfind.
  - unfold Lodash.find_assign at 1.
    rewrite (find_find_assign id body games i o Hfind Hbody).
    unfold Lodash.find_assign. rewrite Hfind.
    by rewrite list_insert_insert_eq, assign_assign.
  - unfold Lodash.find_assign. rewrite Hfind. by rewrite Hfind.
Qed.

Lemma put_twice_witness :
  ({[ "genre" := JStr "Action" ]} : obj) !! "id" = None ∧
  db (then_serve (router.put "a" {[ "genre" := JStr "Action" ]})
        (serve (router.put "a" {[ "genre" := JStr "Action" ]})
           [stored "a" batman] sound)).2 =
  db (serve (router.put "a" {[ "genre" := JStr "Action" ]})
        [stored "a" batman] sound).2.
Proof.
  split; [reflexivity|].
  apply (put_twice "a" {[ "genre" := JStr "Action" ]} [stored "a" batman] sound).
  left; reflexivity.
Defined.

(** X11. An update never adds or removes a record: for every id, payload
    and store behaviour the collection has as many records after the PUT
    as before, and at most one position holds a different record. *)
Theorem put_keeps_size id (body : obj) (games : list obj) fl :
  let after := db (serve (router.put id body) games fl).2 in
  List.length after = List.length games ∧
  ∃ i, ∀ j, j ≠ i → after !! j = games !! j.
Proof.
  intros after. subst after. rewrite put_db. unfold Lodash.find_assign.
  destruct (Lodash.find id games) as [[i o]|].
  - split; [apply length_insert|]. exists i. intros j Hj.
    by apply list_lookup_insert_ne.
  - split; [done|]. by exists 0%nat.
Qed.

(** ** Status codes *)

(** X12. An id that is not found never makes a 404 on the routes that
    change a record. DELETE never answers 404, whatever the store does: it
    answers 200 or lets the exception out with nothing sent. PUT answers
    200 or 500 whenever the store throws no number. *)
Theorem put_delete_never_404 id (body : obj) (games : list obj) fl :
  ((∀ k n, fl k ≠ Some (JNum n)) →
   statusCode (res (serve (router.put id body) games fl).2) = 200 ∨
   statusCode (res (serve (router.put id body) games fl).2) = 500) ∧
  (res (serve (router.delete id) games fl).2 = sent 200 (Some (Text "OK")) ∨
   (∃ e, (serve (router.delete id) games fl).1 = Throw e) ∧
   res (serve (router.delete id) games fl).2 = fresh).
Proof.
  split.
  - intros Hfl. destruct (fl 0%nat) as [e|] eqn:E0.
    + rewrite (put_fault_write id body games fl e E0); [by right|].
      intros n ->. by apply (Hfl 0%nat n).
    + destruct (fl 1%nat) as [e|] eqn:E1.
      * rewrite (put_fault_lookup id body games fl e E0 E1); [by right|].
        intros n ->. by apply (Hfl 1%nat n).
      * rewrite put_run by done. by left.
  - destruct (fl 0%nat) as [e|] eqn:E0.
    + right. rewrite (delete_fault id games fl e E0). split; [by exists e|done].
    + left. by rewrite delete_run.
Qed.

Lemma put_delete_never_404_witness :
  (∀ k n, (λ _ : nat, Some EACCES) k ≠ Some (JNum n)) ∧
  (statusCode (res (serve (router.put "zz" batman) [stored "a" batman]
                      (λ _, Some EACCES)).2) = 200 ∨
   statusCode (res (serve (router.put "zz" batman) [stored "a" batman]
                      (λ _, Some EACCES)).2) = 500).
Proof.
  assert (H : ∀ k n, (λ _ : nat, Some EACCES) k ≠ Some (JNum n))
    by (intros k n; discriminate).
  split; [exact H|].
  apply (proj1 (put_delete_never_404 "zz" batman [stored "a" batman]
                  (λ _, Some EACCES)) H).
Defined.

(** ** Invariants of the collection *)

(** X13. Every record the router stores has an [id] property, and no
    request takes one away: if every record of the collection has an [id],
    so has every record after a create, an update or a delete, for every
    body and whatever the store does. *)
Theorem every_record_has_id (games : list obj) (body : obj) pool id fl :
  Forall (λ o : obj, is_Some (o !! "id")) games →
  Forall (λ o : obj, is_Some (o !! "id")) (db (serve (router.post body pool) games fl).2) ∧
  Forall (λ o : obj, is_Some (o !! "id")) (db (serve (router.put id body) games fl).2) ∧
  Forall (λ o : obj, is_Some (o !! "id")) (db (serve (router.delete id) games fl).2).
Proof.
  intros Hall. rewrite post_db, put_db, delete_db. split_and!.
  - apply Forall_app. split; [done|]. apply Forall_singleton.
    rewrite assign_lookup. destruct (body !! "id"); [done|].
    by rewrite lookup_singleton_eq.
  - unfold Lodash.find_assign.
    destruct (Lodash.find id games) as [[i o]|] eqn:Hfind; [|done].
    apply Forall_insert; [done|].
    apply find_Some in Hfind as (_ & Hid & _).
    rewrite assign_lookup. destruct (body !! "id"); [done|]. by rewrite Hid.
  - apply Forall_forall. intros o Ho. apply elem_of_remove in Ho as [Ho _].
    by eapply Forall_forall in Hall.
Qed.

Lemma every_record_has_id_witness :
  Forall (λ o : obj, is_Some (o !! "id")) [stored "a" batman] ∧
  Forall (λ o : obj, is_Some (o !! "id"))
    (db (serve (router.post batman zeros) [stored "a" batman] sound).2).
Proof.
  assert (H : Forall (λ o : obj, is_Some (o !! "id")) [stored "a" batman]).
  { apply Forall_singleton. by eexists. }
  split; [exact H|].
  apply (every_record_has_id [stored "a" batman] batman zeros "a" sound H).
Defined.

(** X14. An update whose payload has no [id] property leaves the [id] of
    every record of the collection as it was, found or not and whatever
    the store does. *)
Theorem put_keeps_all_ids id (body : obj) (games : list obj) fl :
  body !! "id" = None →
  ids (db (serve (router.put id body) games fl).2) = ids games.
Proof.
  intros Hbody. rewrite put_db. unfold Lodash.find_assign, ids.
  destruct (Lodash.find id games) as [[i o]|] eqn:Hfind; [|done].
  apply find_Some in Hfind as (Hi & _ & _).
  rewrite list_fmap_insert. apply list_insert_id.
  rewrite list_lookup_fmap, Hi. simpl. by rewrite assign_lookup, Hbody.
Qed.

Lemma put_keeps_all_ids_witness :
  ({[ "genre" := JStr "Action" ]} : obj) !! "id" = None ∧
  ids (db (serve (router.put "a" {[ "genre" := JStr "Action" ]}) twins sound).2)
    = ids twins.
Proof.
  split; [reflexivity|].
  apply (put_keeps_all_ids "a" {[ "genre" := JStr "Action" ]} twins sound).
  reflexivity.
Defined.

(** X15. Pairwise distinct ids are kept by a delete, and by a create exactly
    when the id of the new record is not in the collection yet, which the
    handler does not check. *)
Theorem distinct_ids_kept (games : list obj) (body : obj) pool id fl :
  NoDup (ids games) →
  NoDup (ids (db (serve (router.delete id) games fl).2)) ∧
  (NoDup (ids (db (serve (router.post body pool) games fl).2)) ↔
   created body pool !! "id" ∉ ids games).
Proof.
  intros Hnd. rewrite delete_db, post_db. split.
  - eapply sublist_NoDup; [exact Hnd|]. unfold ids, Lodash.remove.
    apply fmap_sublist, sublist_filter.
  - fold (created body pool). unfold ids. rewrite fmap_app. simpl.
    rewrite NoDup_app. split.
    + intros (_ & Hdisj & _) Hin. apply (Hdisj _ Hin). by left.
    + intros Hnew. split_and!; [done| |apply NoDup_singleton].
      intros x Hx Hx'. apply list_elem_of_singleton in Hx'. by subst x.
Qed.

Lemma distinct_ids_kept_witness :
  NoDup (ids [stored "a" batman]) ∧
  NoDup (ids (db (serve (router.delete "a") [stored "a" batman] sound).2)).
Proof.
  assert (H : NoDup (ids [stored "a" batman])) by apply NoDup_singleton.
  split; [exact H|].
  apply (distinct_ids_kept [stored "a" batman] batman zeros "a" sound H).
Defined.

(** X16. On a collection whose ids are pairwise distinct a delete is what
    the collection's contract says: it takes out the first record that
    carries the id, there being no other. *)
Theorem delete_with_distinct_ids id (games : list obj) fl :
  NoDup (ids games) →
  db (serve (router.delete id) games fl).2 = spec_delete_first id games.
Proof.
  intros Hnd. rewrite delete_db. unfold Lodash.remove.
  induction games as [|o games IH]; [done|].
  apply NoDup_cons in Hnd as [Hnew Hnd]. simpl.
  destruct (Lodash.matches id o) eqn:Hm.
  - rewrite filter_cons_False by (rewrite Hm; simpl; tauto).
    apply remove_id_absent. intros o' Ho' Hid. apply Hnew.
    apply matches_true in Hm. rewrite Hm, <- Hid.
    by apply (list_elem_of_fmap_2 (λ o : obj, o !! "id")).
  - rewrite filter_cons_True by (rewrite Hm; simpl; tauto).
    f_equal. by apply IH.
Qed.

Lemma delete_with_distinct_ids_witness :
  NoDup (ids [stored "a" batman; stored "b" ∅]) ∧
  db (serve (router.delete "a") [stored "a" batman; stored "b" ∅] sound).2
    = spec_delete_first "a" [stored "a" batman; stored "b" ∅].
Proof.
  assert (H : NoDup (ids [stored "a" batman; stored "b" ∅])).
  { apply NoDup_cons. split; [|apply NoDup_singleton].
    intros Hin. apply list_elem_of_singleton in Hin. discriminate Hin. }
  split; [exact H|].
  apply (delete_with_distinct_ids "a" [stored "a" batman; stored "b" ∅] sound H).
Defined.

(** ** The generated id *)

Lemma symbol_in_alphabet byte :
  Nanoid.symbol byte ∈ list_ascii_of_string Nanoid.urlAlphabet.
Proof.
  unfold Nanoid.symbol. apply list_elem_of_In, nth_In.
  change (List.length (list_ascii_of_string Nanoid.urlAlphabet)) with 64%nat.
  change 63 with (Z.ones 6). rewrite Z.land_ones by lia.
  pose proof (Z.mod_pos_bound byte (2 ^ 6) ltac:(lia)). lia.
Qed.

(** X17. Every character of a generated id is one of the 64 symbols of
    nanoid's alphabet, whatever the random bytes are (negative or beyond a
    byte included): the index is masked to six bits. The alphabet holds
    [_] and [-] besides letters and digits. *)
Theorem nanoid_in_alphabet size pool :
  Forall (λ c, c ∈ list_ascii_of_string Nanoid.urlAlphabet)
    (list_ascii_of_string (Nanoid.nanoid size pool)) ∧
  "_"%char ∈ list_ascii_of_string Nanoid.urlAlphabet ∧
  "-"%char ∈ list_ascii_of_string Nanoid.urlAlphabet.
Proof.
  split.
  - unfold Nanoid.nanoid. generalize 0%nat.
    induction size as [|size IH]; intros i; simpl; [constructor|].
    constructor; [apply symbol_in_alphabet | apply IH].
  - split; apply list_elem_of_In; vm_compute; tauto.
Qed.

(** ** Failed writes *)

(** X18. A create the store refuses is not undone: the record has been
    pushed onto the array before the write throws, so it is in the
    collection whatever was thrown, and the next GET /games lists it. The
    client of the create has been answered 500 (the thrown value not being
    a number). *)
Theorem failed_create_stays (body : obj) pool (games : list obj) fl e :
  fl 0%nat = Some e →
  fl 1%nat = None →
  db (serve (router.post body pool) games fl).2 = games ++ [created body pool] ∧
  ((∀ n, e ≠ JNum n) →
   ∃ after,
     serve (router.post body pool) games fl = (Ret tt, after) ∧
     statusCode (res after) = 500) ∧
  ∃ final,
    then_serve router.get (serve (router.post body pool) games fl)
      = (Ret tt, final) ∧
    res final =
      sent 200 (Some (Json (JArr (JObj <$> games ++ [created body pool])))).
Proof.
  intros H0 H1. split_and!.
  - apply post_db.
  - intros He. eexists. split; [by apply post_fault|done].
  - unfold then_serve. eexists. split.
    + apply get_run. by rewrite post_faults.
    + simpl. by rewrite post_db.
Qed.

Lemma failed_create_stays_witness :
  (λ n : nat, if n is O then Some EACCES else None) 0%nat = Some EACCES ∧
  db (serve (router.post batman zeros) []
        (λ n, if n is O then Some EACCES else None)).2
    = [] ++ [created batman zeros] ∧
  ∃ final,
    then_serve router.get
      (serve (router.post batman zeros) []
         (λ n, if n is O then Some EACCES else None)) = (Ret tt, final) ∧
    res final =
      sent 200 (Some (Json (JArr (JObj <$> [] ++ [created batman zeros])))).
Proof.
  split; [reflexivity|].
  destruct (failed_create_stays batman zeros []
              (λ n, if n is O then Some EACCES else None) EACCES
              eq_refl eq_refl) as (Hdb & _ & Hlist).
  split; [exact Hdb | exact Hlist].
Defined.

(** ** Round trip *)

(** X19. Create then delete is a round trip: when the created record's id
    is a string no stored record carries, a DELETE of that id gives back
    the collection as it was before the create. *)
Theorem create_then_delete (body : obj) pool (games : list obj) fl id :
  created body pool !! "id" = Some (JStr id) →
  (∀ o, o ∈ games → o !! "id" ≠ Some (JStr id)) →
  db (then_serve (router.delete id) (serve (router.post body pool) games fl)).2
    = games.
Proof.
  intros Hid Hfresh. unfold then_serve. rewrite delete_db, post_db.
  fold (created body pool). unfold Lodash.remove. rewrite filter_app.
  rewrite filter_cons_False, filter_nil, app_nil_r.
  - by apply remove_id_absent.
  - rewrite matches_spec. tauto.
Qed.

Lemma create_then_delete_witness :
  created batman zeros !! "id" = Some (JStr "uuuuuuuu") ∧
  db (then_serve (router.delete "uuuuuuuu")
        (serve (router.post batman zeros) [stored "a" ∅] sound)).2
    = [stored "a" ∅].
Proof.
  split; [reflexivity|].
  apply (create_then_delete batman zeros [stored "a" ∅] sound "uuuuuuuu").
  - reflexivity.
  - intros o Ho. apply list_elem_of_singleton in Ho. subst o. discriminate.
Defined.

(** ** Records out of reach *)

(** X20. A record whose [id] is not a JSON string (a number, say, which a
    create with such an [id] in its body stores) is out of reach of the
    three routes that take an id: the path id is a string and the match is
    strict. No DELETE removes it, no PUT changes it, no GET /games/:id
    answers with it. *)
Theorem unaddressable_stays (o : obj) (games : list obj) id (body : obj) fl :
  ¬ addressable o →
  o ∈ games →
  o ∈ db (serve (router.delete id) games fl).2 ∧
  o ∈ db (serve (router.put id body) games fl).2 ∧
  res (serve (router.get_id id) games fl).2 ≠ sent 200 (Some (Json (JObj o))).
Proof.
  intros Hun Hin.
  assert (Hno : o !! "id" ≠ Some (JStr id)) by (intros H; apply Hun; by exists id).
  rewrite delete_db, put_db. split_and!.
  - by apply elem_of_remove.
  - unfold Lodash.find_assign.
    destruct (Lodash.find id games) as [[i o']|] eqn:Hfind; [|done].
    apply find_Some in Hfind as (Hi & Hid & _).
    apply list_elem_of_lookup_1 in Hin as [j Hj].
    apply list_elem_of_lookup. exists j.
    rewrite list_lookup_insert_ne; [done|]. intros ->. congruence.
  - destruct (fl 0%nat) as [e|] eqn:E0.
    + unfold serve, router.get_id. unfold mbind, M_bind, Lowdb.value.
      simpl. rewrite E0. discriminate.
    + rewrite get_id_run by done. simpl.
      destruct (Lodash.find id games) as [[i o']|] eqn:Hfind; [|discriminate].
      apply find_Some in Hfind as (_ & Hid & _). intros [= ->]. done.
Qed.

Lemma unaddressable_stays_witness :
  ¬ addressable numbered ∧
  numbered ∈ db (serve (router.delete "5") [numbered] sound).2 ∧
  numbered ∈ db (serve (router.put "5" batman) [numbered] sound).2 ∧
  res (serve (router.get_id "5") [numbered] sound).2
    ≠ sent 200 (Some (Json (JObj numbered))).
Proof.
  assert (H : ¬ addressable numbered) by (intros [s Hs]; discriminate Hs).
  split; [exact H|].
  apply (unaddressable_stays numbered [numbered] "5" batman sound H).
  apply list_elem_of_singleton. reflexivity.
Defined.

(** ** Renaming through an update *)

(** X21. A PUT whose payload gives the record another id answers 200 with
    no body when no other record carries the path id: the record has been
    merged and stored under the new id, and the lookup for the response,
    made under the path id, finds nothing. *)
Theorem put_rename_answers_nothing id id' (body : obj) (games : list obj) fl i o :
  Lodash.find id games = Some (i, o) →
  body !! "id" = Some (JStr id') →
  id' ≠ id →
  (∀ j o', games !! j = Some o' → j ≠ i → o' !! "id" ≠ Some (JStr id)) →
  fl 0%nat = None → fl 1%nat = None →
  ∃ final,
    serve (router.put id body) games fl = (Ret tt, final) ∧
    res final = sent 200 None ∧
    db final !! i = Some (Lodash.assign o body) ∧
    Lodash.assign o body !! "id" = Some (JStr id').
Proof.
  intros Hfind Hbody Hne Hothers H0 H1.
  eexists. split; [by apply put_run|]. simpl.
  unfold Lodash.find_assign. rewrite Hfind.
  pose proof Hfind as (Hi & _ & _)%find_Some.
  assert (Hmerged : Lodash.assign o body !! "id" = Some (JStr id'))
    by (by rewrite assign_lookup, Hbody).
  assert (Hgone : Lodash.find id (<[i:=Lodash.assign o body]> games) = None).
  { apply find_None. intros o' Ho'.
    apply list_elem_of_lookup_1 in Ho' as [j Hj].
    destruct (decide (j = i)) as [->|Hji].
    - rewrite list_lookup_insert_eq in Hj by (by eapply lookup_lt_Some).
      injection Hj as <-. rewrite Hmerged. congruence.
    - rewrite list_lookup_insert_ne in Hj by done. by eapply Hothers. }
  rewrite Hgone. split_and!; [done| |done].
  apply list_lookup_insert_eq. by eapply lookup_lt_Some.
Qed.

Lemma put_rename_answers_nothing_witness :
  Lodash.find "a" [stored "a" batman] = Some (0%nat, stored "a" batman) ∧
  ∃ final,
    serve (router.put "a" {[ "id" := JStr "b" ]}) [stored "a" batman] sound
      = (Ret tt, final) ∧
    res final = sent 200 None ∧
    db final !! 0%nat
      = Some (Lodash.assign (stored "a" batman) {[ "id" := JStr "b" ]}) ∧
    Lodash.assign (stored "a" batman) {[ "id" := JStr "b" ]} !! "id"
      = Some (JStr "b").
Proof.
  split; [reflexivity|].
  apply (put_rename_answers_nothing "a" "b" {[ "id" := JStr "b" ]}
           [stored "a" batman] sound 0%nat (stored "a" batman)).
  - reflexivity.
  - reflexivity.
  - discriminate.
  - intros [|j] o' Hj Hne; [done|]. discriminate Hj.
  - reflexivity.
  - reflexivity.
Defined.
